(** * Enhanced-weathering CDR model: realization extractor and model builder

    A shallow embedding of [demo_module.py]:

    - [load_realization] reshapes one realization of the measurement cube
      into a table indexed by (plot type, round);
    - [init_model] declares the generative graph (latent, deterministic and
      observed nodes) over such a table.

    Measurements, constants and sampled values are exact rationals ([Q]);
    the rounding of IEEE doubles is not part of the model.  The behaviour of
    the libraries the module calls (indexing of an array, construction of a
    frame, label lookup, sorting of a two-level index, registration of a named
    variable) is written out where the module relies on it. *)

From Stdlib Require Import String List ZArith QArith Qabs Bool Lia Lqa.
From Stdlib Require Import Permutation Sorted RelationClasses OrderedTypeEx.
Import ListNotations.

Local Open Scope string_scope.
Local Open Scope Z_scope.

(** ** Exceptions *)

(** The Python exception classes the module can raise.  [ValueError] is what
    the frame constructor, [insert], array broadcasting and a name collision
    raise; [KeyError] is the label lookup on a missing (plot type, round)
    slice; [IndexError] is positional indexing out of range. *)
Inductive exn : Type :=
| IndexError
| ValueError
| KeyError.

(** ** The measurement cube *)

(** [ds["data"]]: a 3-D array with its shape (sample, analyte, realization).
    [item i j r] is read only inside the shape. *)
Record DataArray : Type := mkDataArray {
  dim_sample : nat;
  dim_analyte : nat;
  dim_realization : nat;
  item : nat -> nat -> nat -> Q
}.

(** The dataset: the cube, [ds.attrs["analytes"]], and the two per-sample
    variables [ds["control"]] and [ds["round"]]. *)
Record Dataset : Type := mkDataset {
  ds_data : DataArray;
  ds_analytes : list string;
  ds_control : list Z;
  ds_round : list Z
}.

(** Positional index on an axis of length [n]: [0 <= i < n] is taken as it
    is, [-n <= i < 0] counts from the end, anything else is out of range. *)
Definition normalize_index (n : nat) (i : Z) : option nat :=
  if (0 <=? i) && (i <? Z.of_nat n) then Some (Z.to_nat i)
  else if (- Z.of_nat n <=? i) && (i <? 0) then Some (Z.to_nat (Z.of_nat n + i))
  else None.

(** [a[:, :-1, realization]]: every sample, every analyte but the last, one
    realization. *)
Definition slice_at (a : DataArray) (r : nat) : list (list Q) :=
  map (fun i => map (fun j => item a i j r) (seq 0 (dim_analyte a - 1)))
      (seq 0 (dim_sample a)).

Definition isel (a : DataArray) (realization : Z) : exn + list (list Q) :=
  match normalize_index (dim_realization a) realization with
  | None => inl IndexError
  | Some r => inr (slice_at a r)
  end.

(** ** The indexed table *)

(** A cell of the first index level: after [replace] the column has dtype
    object and holds strings and whatever integers were not replaced. *)
Inductive label : Type :=
| LInt (z : Z)
| LStr (s : string).

Definition Key : Type := (label * Z)%type.
Definition Row : Type := (Key * list Q)%type.

(** A frame with the two-level row index (plot type, round). *)
Record Table : Type := mkTable {
  columns : list string;
  rows : list Row
}.

(** [Series.replace(mapping)]: the first entry whose key equals the value
    gives its replacement; a value with no entry stays as it is. *)
Fixpoint replace (mapping : list (Z * string)) (z : Z) : label :=
  match mapping with
  | [] => LInt z
  | (k, s) :: rest => if z =? k then LStr s else replace rest z
  end.

(** The order of a level of mixed labels: integers before strings, integers
    by value, strings by code point. *)
Definition label_compare (a b : label) : comparison :=
  match a, b with
  | LInt x, LInt y => Z.compare x y
  | LInt _, LStr _ => Lt
  | LStr _, LInt _ => Gt
  | LStr s, LStr t => String.compare s t
  end.

Definition key_compare (a b : Key) : comparison :=
  match label_compare (fst a) (fst b) with
  | Eq => Z.compare (snd a) (snd b)
  | c => c
  end.

Definition key_leb (a b : Key) : bool :=
  match key_compare a b with
  | Gt => false
  | _ => true
  end.

Definition key_eqb (a b : Key) : bool :=
  match key_compare a b with
  | Eq => true
  | _ => false
  end.

(** [sort_index()] on the two-level index is a stable lexicographic sort:
    rows with equal keys keep their order. *)
Fixpoint insert_row (x : Row) (l : list Row) : list Row :=
  match l with
  | [] => [x]
  | y :: l' => if key_leb (fst x) (fst y) then x :: l else y :: insert_row x l'
  end.

Definition sort_index (l : list Row) : list Row :=
  fold_right insert_row [] l.

(** ** [load_realization] *)

Definition tag_names : list (Z * string) := [(1, "control"); (0, "treatment")].

Definition has_name (c : string) (names : list string) : bool :=
  existsb (String.eqb c) names.

Definition load_realization (ds : Dataset) (realization : Z) : exn + Table :=
  (* ds["data"][:, :-1, realization] *)
  match isel (ds_data ds) realization with
  | inl e => inl e
  | inr values =>
    let names := removelast (ds_analytes ds) in
    let n := dim_sample (ds_data ds) in
    (* pd.DataFrame(values, columns=names): the widths must agree *)
    if negb (dim_analyte (ds_data ds) - 1 =? length names)%nat then inl ValueError
    (* data.insert(0, "control", ds["control"]) *)
    else if has_name "control" names || negb (length (ds_control ds) =? n)%nat
    then inl ValueError
    (* data.insert(0, "round", ds["round"]) *)
    else if has_name "round" ("control" :: names)
            || negb (length (ds_round ds) =? n)%nat
    then inl ValueError
    else
      (* data["control"] = data["control"].replace({1: ..., 0: ...}) *)
      let control := map (replace tag_names) (ds_control ds) in
      (* data.set_index(["control", "round"]).sort_index() *)
      let index := combine control (ds_round ds) in
      inr (mkTable names (sort_index (combine index values)))
  end.

(** The cube contract the extractor relies on: the names list is as long as
    the analyte axis, both per-sample variables are as long as the sample
    axis, and no kept analyte is called like one of the two inserted
    columns. *)
Definition valid_cube (ds : Dataset) : Prop :=
  length (ds_analytes ds) = dim_analyte (ds_data ds)
  /\ length (ds_control ds) = dim_sample (ds_data ds)
  /\ length (ds_round ds) = dim_sample (ds_data ds)
  /\ ~ In "control" (removelast (ds_analytes ds))
  /\ ~ In "round" (removelast (ds_analytes ds)).

(** Row [i] of the selected slice, with its tag relabelled and its round. *)
Definition slice_row (ds : Dataset) (r : nat) (i : nat) : Row :=
  ((replace tag_names (nth i (ds_control ds) 0), nth i (ds_round ds) 0),
   map (fun j => item (ds_data ds) i j r) (seq 0 (dim_analyte (ds_data ds) - 1))).

Definition slice_rows (ds : Dataset) (r : nat) : list Row :=
  map (slice_row ds r) (seq 0 (dim_sample (ds_data ds))).

Definition key_le (a b : Row) : Prop := key_leb (fst a) (fst b) = true.

(** ** Arrays and broadcasting *)

Local Open Scope Q_scope.

(** A numeric array of rank at most two, as its rows.  A scalar is [[q]],
    a vector of length [m] is the single row [[x1; ...; xm]]: broadcasting
    aligns trailing axes, so the values computed are those of the 1 x m
    array. *)
Definition ndarray : Type := list (list Q).

Definition scalar (q : Q) : ndarray := [[q]].

Definition shape (a : ndarray) : nat * nat := (length a, length (hd [] a)).

Definition shape_eqb (s t : nat * nat) : bool :=
  ((fst s =? fst t)%nat && (snd s =? snd t)%nat)%bool.

(** Two axis lengths broadcast when they agree or one of them is 1. *)
Definition dim_ok (m n : nat) : bool :=
  ((m =? n)%nat || (m =? 1)%nat || (n =? 1)%nat)%bool.

Definition bdim (m n : nat) : nat := if (m =? 1)%nat then n else m.

Definition bshape (s t : nat * nat) : nat * nat :=
  (bdim (fst s) (fst t), bdim (snd s) (snd t)).

(** Pairing along one axis, stretching an axis of length 1. *)
Definition bzip {A : Type} (f : A -> A -> A) (xs ys : list A) : list A :=
  match xs, ys with
  | [x], _ => map (f x) ys
  | _, [y] => map (fun x => f x y) xs
  | _, _ => map (fun p => f (fst p) (snd p)) (combine xs ys)
  end.

(** An elementwise binary operation; [None] when the shapes do not
    broadcast (numpy raises ValueError). *)
Definition np_binop (f : Q -> Q -> Q) (a b : ndarray) : option ndarray :=
  if (dim_ok (fst (shape a)) (fst (shape b))
      && dim_ok (snd (shape a)) (snd (shape b)))%bool
  then Some (bzip (bzip f) a b)
  else None.

Definition np_add : ndarray -> ndarray -> option ndarray := np_binop Qplus.
Definition np_sub : ndarray -> ndarray -> option ndarray := np_binop Qminus.
Definition np_mul : ndarray -> ndarray -> option ndarray := np_binop Qmult.

Definition all_cells (p : Q -> bool) (a : ndarray) : bool :=
  forallb (forallb p) a.

Definition Qltb (x y : Q) : bool := negb (Qle_bool y x).

(** Division has no rational value at a zero divisor (the doubles give an
    infinity or a NaN there): the quotient is then undefined. *)
Definition np_div (a b : ndarray) : option ndarray :=
  if all_cells (fun y => negb (Qeq_bool y 0)) b then np_binop Qdiv a b else None.

(** [a / q] for a Python scalar [q]. *)
Definition np_div_scalar (a : ndarray) (q : Q) : ndarray :=
  map (map (fun x => x / q)) a.

Definition np_sum (a : ndarray) : Q :=
  fold_right (fun row acc => fold_right Qplus acc row) 0 a.


(** ** Label lookup on the table *)

(** [df.loc[l, r]]: the rows whose index is [(l, r)], in table order; a key
    that labels no row raises KeyError. *)
Definition loc (df : Table) (l : label) (r : Z) : option ndarray :=
  match filter (fun row => key_eqb (fst row) (l, r)) (rows df) with
  | [] => None
  | sel => Some (map snd sel)
  end.

(** ** The model graph *)

(** A symbolic tensor expression: what an arithmetic operation on a model
    variable builds. *)
Inductive expr : Type :=
| Const (q : Q)
| Arr (a : ndarray)
| Ref (name : string)
| Add (a b : expr)
| Sub (a b : expr)
| Mul (a b : expr)
| Div (a b : expr)
| Sum (a : expr).

Declare Scope expr_scope.
Delimit Scope expr_scope with E.
Bind Scope expr_scope with expr.
Notation "a + b" := (Add a b) : expr_scope.
Notation "a - b" := (Sub a b) : expr_scope.
Notation "a * b" := (Mul a b) : expr_scope.
Notation "a / b" := (Div a b) : expr_scope.

Inductive dist : Type :=
| Normal (mu sigma : expr)
| Gamma (mu sigma : expr)
| Exponential (scale : expr)
| HalfNormal (sigma : expr)
| Uniform (lower upper : expr)
| Beta (alpha beta : expr).

Inductive node_kind : Type :=
| Latent (d : dist) (shp : option (nat * nat))
| Deterministic (e : expr)
| Observed (d : dist) (data : ndarray).

Record Node : Type := mkNode {
  node_name : string;
  node_def : node_kind
}.

Definition is_observed (n : Node) : bool :=
  match node_def n with
  | Observed _ _ => true
  | _ => false
  end.


(** ** State and exceptions *)

Inductive io_event : Type :=
| Print (s : string)
| FileRead (path : string)
| FileWrite (path : string).

(** What a call of [init_model] can touch: the table object it is handed,
    the model of the enclosing [with] block, and the outside world. *)
Record World : Type := mkWorld {
  w_df : Table;
  w_model : list Node;
  w_trace : list io_event
}.

Definition M (A : Type) : Type := World -> (exn + A) * World.

Definition ret {A : Type} (x : A) : M A := fun w => (inr x, w).

Definition raise {A : Type} (e : exn) : M A := fun w => (inl e, w).

Definition bind {A B : Type} (m : M A) (k : A -> M B) : M B :=
  fun w =>
    match m w with
    | (inl e, w') => (inl e, w')
    | (inr x, w') => k x w'
    end.

Notation "x <- m ;; k" := (bind m (fun x => k))
  (at level 61, m at next level, right associativity).
Notation "m ;;; k" := (bind m (fun _ => k))
  (at level 61, right associativity).

(** [with pm.Model() as model]: a fresh, empty model becomes current. *)
Definition pm_Model : M unit :=
  fun w => (inr tt, mkWorld (w_df w) [] (w_trace w)).

Definition current_model : M (list Node) :=
  fun w => (inr (w_model w), w).

(** Registration of a named variable in the current model; a name that is
    already there raises ValueError.  The handle returned stands for the
    variable in later expressions. *)
Definition register (n : Node) : M expr :=
  fun w =>
    if has_name (node_name n) (map node_name (w_model w))
    then (inl ValueError, w)
    else (inr (Ref (node_name n)),
          mkWorld (w_df w) (w_model w ++ [n]) (w_trace w)).

(** [df.loc[l, r].values] *)
Definition df_loc (l : string) (r : Z) : M ndarray :=
  fun w =>
    match loc (w_df w) (LStr l) r with
    | None => (inl KeyError, w)
    | Some a => (inr a, w)
    end.

(** An array operation carried out at once, on concrete arrays. *)
Definition np (o : option ndarray) : M ndarray :=
  match o with
  | None => raise ValueError
  | Some a => ret a
  end.

(** [pm.<Family>(name, ..., shape=..., observed=...)]: a random variable,
    observed when data is bound to it and latent otherwise.  A declaration
    registers the variable; what the inference library checks about shapes
    and parameter values at that point is not part of the model (shapes and
    supports are checked when a sample is formed, see [node_value]). *)
Definition pm_rv (name : string) (d : dist) (shp : option (nat * nat))
    (observed : option ndarray) : M expr :=
  register (mkNode name
    (match observed with
     | Some data => Observed d data
     | None => Latent d shp
     end)).

(** [pm.Deterministic(name, e)] *)
Definition pm_Deterministic (name : string) (e : expr) : M expr :=
  register (mkNode name (Deterministic e)).

(** ** [init_model] *)

Definition init_model : M (list Node) :=
  pm_Model ;;;
  (* deployment information *)
  wet_feedstock_mass <-
    pm_rv "wet feedstock mass" (Normal (Const 12800) (Const 100)) None None ;;
  treatment_area <-
    pm_rv "treatment area" (Normal (Const 3200) (Const 32)) None None ;;
  sample_depth <-
    pm_rv "sample depth" (Gamma (Const 0.1) (Const 0.025)) None None ;;
  feedstock_moisture_fraction <-
    pm_rv "feedstock moisture fraction"
      (Normal (Const 0.125) (Const 0.025)) None None ;;
  dry_feedstock_mass <-
    pm_Deterministic "dry feedstock mass"
      ((Const 1 - feedstock_moisture_fraction) * wet_feedstock_mass) ;;
  application_rate <-
    pm_Deterministic "application rate" (dry_feedstock_mass / treatment_area) ;;
  feedstock_concentration <-
    pm_rv "feedstock concentration"
      (Normal (Arr [[0.07; 0.05]]) (Arr [[0.0035; 0.0025]])) None None ;;
  (* mixing *)
  soil_density <-
    pm_rv "soil density" (Normal (Const 1e3) (Const 100)) None None ;;
  soil_mass <- pm_Deterministic "soil mass" (soil_density * sample_depth) ;;
  mixing_fraction <-
    pm_Deterministic "mixing fraction"
      (application_rate / (application_rate + soil_mass)) ;;
  t1 <- df_loc "treatment" 1 ;;
  mixed_concentration <-
    pm_Deterministic "mixed concentration"
      (mixing_fraction * feedstock_concentration
       + (Const 1 - mixing_fraction) * Arr t1) ;;
  (* observed post-spreading enrichment *)
  t1 <- df_loc "treatment" 1 ;;
  enrichment <-
    pm_Deterministic "enrichment" (mixed_concentration - Arr t1) ;;
  enrichment_sigma <-
    pm_rv "enrichment sigma" (Exponential (Const 1e-3))
      (Some (1%nat, 2%nat)) None ;;
  t2 <- df_loc "treatment" 2 ;;
  t1 <- df_loc "treatment" 1 ;;
  observed <- np (np_sub t2 t1) ;;
  pm_rv "obs enriched" (Normal enrichment enrichment_sigma) None
    (Some observed) ;;;
  (* change in control concentrations *)
  control_change <-
    pm_rv "control change" (Normal (Const 0) (Const 1e-3))
      (Some (1%nat, 2%nat)) None ;;
  control_change_sigma <-
    pm_rv "control change sigma" (HalfNormal (Const 1e-3))
      (Some (1%nat, 2%nat)) None ;;
  c3 <- df_loc "control" 3 ;;
  c1 <- df_loc "control" 1 ;;
  c2 <- df_loc "control" 2 ;;
  mean12 <- np (np_add (np_div_scalar c1 2) (np_div_scalar c2 2)) ;;
  observed <- np (np_sub c3 mean12) ;;
  pm_rv "obs control" (Normal control_change control_change_sigma) None
    (Some observed) ;;;
  (* observed concentration loss *)
  norm_loss_mu <-
    pm_rv "norm loss mu" (Uniform (Const 0) (Const 1)) None None ;;
  norm_loss_sigma <-
    pm_rv "norm loss sigma" (Beta (Const 1) (Const 6)) None None ;;
  norm_loss <-
    pm_rv "norm loss" (Normal norm_loss_mu norm_loss_sigma)
      (Some (1%nat, 2%nat)) None ;;
  concentration_loss <-
    pm_Deterministic "concentration loss" (norm_loss * enrichment) ;;
  t2 <- df_loc "treatment" 2 ;;
  weathered_concentration <-
    pm_Deterministic "weathered concentration"
      (Arr t2 - (concentration_loss - control_change)) ;;
  weathered_sigma <-
    pm_rv "weathered sigma" (Exponential (Const 1e-3))
      (Some (1%nat, 2%nat)) None ;;
  t3 <- df_loc "treatment" 3 ;;
  pm_rv "obs weathered" (Normal weathered_concentration weathered_sigma) None
    (Some t3) ;;;
  (* CDR *)
  cdrpot <-
    pm_Deterministic "CDR potential (per mass)"
      (Sum (feedstock_concentration * Arr [[2.196; 3.621]])) ;;
  cdrpot_area <-
    pm_Deterministic "CDR potential (per area)" (application_rate * cdrpot) ;;
  cdr <-
    pm_Deterministic "CDR (per area)"
      (Sum (norm_loss * feedstock_concentration * Arr [[2.196; 3.621]])
       * application_rate) ;;
  pm_Deterministic "CDR [metric ton CO2]" (cdr * treatment_area / Const 1e3) ;;;
  pm_Deterministic "CDR completion [-]" (cdr / cdrpot_area) ;;;
  current_model.

(** What the caller of [init_model(df)] gets: the model, or the exception
    that left the [with] block. *)
Definition build (df : Table) : exn + list Node :=
  fst (init_model (mkWorld df [] [])).

(** A computation that leaves the table and the trace as they are. *)
Definition frame {A : Type} (m : M A) : Prop :=
  forall w, w_df (snd (m w)) = w_df w /\ w_trace (snd (m w)) = w_trace w.

(** ** Samples of a graph *)

(** The values of the nodes fixed so far, most recent first. *)
Definition env : Type := list (string * ndarray).

Fixpoint lookup (x : string) (en : env) : option ndarray :=
  match en with
  | [] => None
  | (y, v) :: rest => if String.eqb x y then Some v else lookup x rest
  end.

Definition obind {A B : Type} (o : option A) (k : A -> option B) : option B :=
  match o with
  | None => None
  | Some x => k x
  end.

Fixpoint eval (en : env) (e : expr) : option ndarray :=
  match e with
  | Const q => Some (scalar q)
  | Arr a => Some a
  | Ref x => lookup x en
  | Add a b => obind (eval en a) (fun u => obind (eval en b) (np_add u))
  | Sub a b => obind (eval en a) (fun u => obind (eval en b) (np_sub u))
  | Mul a b => obind (eval en a) (fun u => obind (eval en b) (np_mul u))
  | Div a b => obind (eval en a) (fun u => obind (eval en b) (np_div u))
  | Sum a => obind (eval en a) (fun u => Some (scalar (np_sum u)))
  end.

Fixpoint eval_all (en : env) (es : list expr) : option (list ndarray) :=
  match es with
  | [] => Some []
  | e :: rest =>
    obind (eval en e) (fun v =>
    obind (eval_all en rest) (fun vs => Some (v :: vs)))
  end.

Definition dist_params (d : dist) : list expr :=
  match d with
  | Normal mu sigma => [mu; sigma]
  | Gamma mu sigma => [mu; sigma]
  | Exponential scale => [scale]
  | HalfNormal sigma => [sigma]
  | Uniform lower upper => [lower; upper]
  | Beta alpha beta => [alpha; beta]
  end.

Definition nonneg (o : option ndarray) : bool :=
  match o with
  | None => false
  | Some a => all_cells (Qle_bool 0) a
  end.

(** The support of each family: Normal is unbounded, Gamma is positive,
    Exponential and HalfNormal are nonnegative, Uniform lies between its
    bounds, Beta lies strictly between 0 and 1. *)
Definition in_support (d : dist) (ps : list ndarray) (v : ndarray) : bool :=
  match d, ps with
  | Normal _ _, _ => true
  | Gamma _ _, _ => all_cells (Qltb 0) v
  | Exponential _, _ => all_cells (Qle_bool 0) v
  | HalfNormal _, _ => all_cells (Qle_bool 0) v
  | Uniform _ _, [lo; hi] => (nonneg (np_sub v lo) && nonneg (np_sub hi v))%bool
  | Uniform _ _, _ => false
  | Beta _ _, _ => all_cells (fun x => (Qltb 0 x && Qltb x 1)%bool) v
  end.

(** The shape of a variable declared without [shape]: that of its
    parameters, broadcast. *)
Definition params_shape (ps : list ndarray) : nat * nat :=
  fold_right (fun p s => bshape (shape p) s) (1%nat, 1%nat) ps.

(** The value of one node in a sample: a latent variable takes the drawn
    value, which must have the declared shape and lie in the support; a
    deterministic node is its expression over the earlier nodes; an
    observed node is its data. *)
Definition node_value (draw : env) (en : env) (n : Node) : option ndarray :=
  match node_def n with
  | Latent d shp =>
    obind (lookup (node_name n) draw) (fun v =>
    obind (eval_all en (dist_params d)) (fun ps =>
      if (in_support d ps v
          && shape_eqb (shape v)
               (match shp with
                | Some s => s
                | None => params_shape ps
                end))%bool
      then Some v
      else None))
  | Deterministic e => eval en e
  | Observed _ data => Some data
  end.

(** Forward sampling in declaration order: [forward g draw [] = Some s]
    says that [s] is the sample of [g] in which the latent variables take
    the values [draw]. *)
Fixpoint forward (g : list Node) (draw : env) (en : env) : option env :=
  match g with
  | [] => Some en
  | n :: rest =>
    obind (node_value draw en n) (fun v =>
      forward rest draw ((node_name n, v) :: en))
  end.

(** ** Preconditions of [init_model] *)

Definition table_wf (df : Table) : Prop :=
  Forall (fun row : Row => length (snd row) = length (columns df)) (rows df).

(** The slice [(l, r)] is there and has [k] rows. *)
Definition has_slice (df : Table) (k : nat) (l : string) (r : Z) : Prop :=
  exists a, loc df (LStr l) r = Some a /\ length a = k.

(** The table has two analyte columns and the six slices the model reads,
    with as many rows each (one row each in the plain case). *)
Definition build_pre (df : Table) : Prop :=
  table_wf df /\ length (columns df) = 2%nat /\
  exists k,
    has_slice df k "treatment" 1 /\ has_slice df k "treatment" 2 /\
    has_slice df k "treatment" 3 /\ has_slice df k "control" 1 /\
    has_slice df k "control" 2 /\ has_slice df k "control" 3.


(** ** The synthetic table of the end-to-end scenario *)

Definition synthetic : Table :=
  mkTable ["Ca"; "Mg"]
    [ ((LStr "control", 1%Z), [0.05; 0.04]);
      ((LStr "control", 2%Z), [0.051; 0.041]);
      ((LStr "control", 3%Z), [0.0505; 0.0405]);
      ((LStr "treatment", 1%Z), [0.05; 0.04]);
      ((LStr "treatment", 2%Z), [0.07; 0.05]);
      ((LStr "treatment", 3%Z), [0.065; 0.045]) ].

(** One draw of the thirteen latent variables, each in its support. *)
Definition draw0 : env :=
  [ ("wet feedstock mass", scalar 12800);
    ("treatment area", scalar 3200);
    ("sample depth", scalar 0.125);
    ("feedstock moisture fraction", scalar 0.125);
    ("feedstock concentration", [[0.07; 0.05]]);
    ("soil density", scalar 1000);
    ("enrichment sigma", [[0.001; 0.001]]);
    ("control change", [[0; 0]]);
    ("control change sigma", [[0.001; 0.001]]);
    ("norm loss mu", scalar 0.5);
    ("norm loss sigma", scalar 0.125);
    ("norm loss", [[0.5; 0.5]]);
    ("weathered sigma", [[0.001; 0.001]]) ].


Definition graph_of (r : exn + list Node) : list Node :=
  match r with
  | inl _ => []
  | inr g => g
  end.

(** The names of the variables of the model, in declaration order. *)
Definition node_names : list string :=
  [ "wet feedstock mass"; "treatment area"; "sample depth";
    "feedstock moisture fraction"; "dry feedstock mass"; "application rate";
    "feedstock concentration"; "soil density"; "soil mass"; "mixing fraction";
    "mixed concentration"; "enrichment"; "enrichment sigma"; "obs enriched";
    "control change"; "control change sigma"; "obs control"; "norm loss mu";
    "norm loss sigma"; "norm loss"; "concentration loss";
    "weathered concentration"; "weathered sigma"; "obs weathered";
    "CDR potential (per mass)"; "CDR potential (per area)"; "CDR (per area)";
    "CDR [metric ton CO2]"; "CDR completion [-]" ].

(** [e2] has every binding of [e1]. *)
Definition extends (e1 e2 : env) : Prop :=
  forall x v, lookup x e1 = Some v -> lookup x e2 = Some v.



(** The model of the synthetic table and its samples at the two draws. *)
Definition graph0 : list Node := graph_of (build synthetic).

Definition sample_of (g : list Node) (draw : env) : env :=
  match forward g draw [] with
  | Some s => s
  | None => []
  end.

Definition sample0 : env := sample_of graph0 draw0.


Definition value_of (x : string) (s : env) : ndarray :=
  match lookup x s with
  | Some v => v
  | None => []
  end.

(** ** Concrete cubes *)

(** Six samples (three rounds of a treatment and of a control plot), three
    analytes of which the last is dropped, two realizations. *)
Definition cube0 : Dataset :=
  mkDataset
    (mkDataArray 6 3 2
       (fun i j r => inject_Z (Z.of_nat (100 * r + 10 * i + j))))
    ["Ca"; "Mg"; "meta"]
    [1; 0; 1; 0; 1; 0]%Z
    [1; 1; 2; 2; 3; 3]%Z.

(** A cube with a plot-type tag that is neither 0 nor 1. *)
Definition cube_tag2 : Dataset :=
  mkDataset
    (mkDataArray 3 2 1 (fun i j r => inject_Z (Z.of_nat (10 * i + j))))
    ["Ca"; "meta"]
    [0; 2; 1]%Z
    [1; 1; 1]%Z.

(** ** Notions for the further properties *)

(** The samples of the cube whose relabelled tag and round make the key
    [(l, z)], in sample order. *)
Definition samples_at (ds : Dataset) (l : label) (z : Z) : list nat :=
  filter
    (fun i =>
       key_eqb (replace tag_names (nth i (ds_control ds) 0%Z),
                nth i (ds_round ds) 0%Z) (l, z))
    (seq 0 (dim_sample (ds_data ds))).

Definition has_label (s : string) (row : Row) : bool :=
  match fst (fst row) with
  | LStr t => String.eqb s t
  | LInt _ => false
  end.

(** The six slices [init_model] reads. *)
Definition model_slices : list (string * Z) :=
  [ ("treatment", 1%Z); ("treatment", 2%Z); ("treatment", 3%Z);
    ("control", 1%Z); ("control", 2%Z); ("control", 3%Z) ].

Definition same_slices (df1 df2 : Table) : Prop :=
  forall l r, In (l, r) model_slices ->
    loc df1 (LStr l) r = loc df2 (LStr l) r.

(** The variables an expression mentions. *)
Fixpoint refs (e : expr) : list string :=
  match e with
  | Const _ => []
  | Arr _ => []
  | Ref x => [x]
  | Add a b => refs a ++ refs b
  | Sub a b => refs a ++ refs b
  | Mul a b => refs a ++ refs b
  | Div a b => refs a ++ refs b
  | Sum a => refs a
  end.

Definition node_refs (n : Node) : list string :=
  match node_def n with
  | Latent d _ => flat_map refs (dist_params d)
  | Deterministic e => refs e
  | Observed d _ => flat_map refs (dist_params d)
  end.

(** Every variable a node mentions was declared before it. *)
Fixpoint well_scoped_from (seen : list string) (g : list Node) : bool :=
  match g with
  | [] => true
  | n :: rest =>
    (forallb (fun x => has_name x seen) (node_refs n)
     && well_scoped_from (node_name n :: seen) rest)%bool
  end.

Definition well_scoped (g : list Node) : bool := well_scoped_from [] g.


(** A cube whose round variable is one entry short. *)
Definition cube_short_round : Dataset :=
  mkDataset
    (mkDataArray 3 2 1 (fun i j r => inject_Z (Z.of_nat (10 * i + j))))
    ["Ca"; "meta"]
    [0; 0; 1]%Z
    [1; 2]%Z.

(** [cube0] with other values in the dropped analyte and in the other
    realization. *)
Definition cube0_other : Dataset :=
  mkDataset
    (mkDataArray 6 3 2
       (fun i j r =>
          if ((j =? 2) || (r =? 1))%nat then 7
          else inject_Z (Z.of_nat (100 * r + 10 * i + j))))
    ["Ca"; "Mg"; "meta"]
    [1; 0; 1; 0; 1; 0]%Z
    [1; 1; 2; 2; 3; 3]%Z.


(** The synthetic table with a row of another plot and a later round
    added. *)
Definition synthetic_more : Table :=
  mkTable ["Ca"; "Mg"]
    (rows synthetic
     ++ [ ((LStr "treatment", 4%Z), [0.06; 0.04]);
          ((LInt 2, 1%Z), [0.01; 0.02]) ])%list.

(** * Properties of the extractor *)

Section Order.

Lemma label_compare_antisym (a b : label) :
  label_compare b a = CompOpp (label_compare a b).
Proof.
  destruct a as [x|s], b as [y|t]; simpl; try reflexivity.
  - apply Z.compare_antisym.
  - apply String.compare_antisym.
Qed.

Lemma key_compare_antisym (a b : Key) :
  key_compare b a = CompOpp (key_compare a b).
Proof.
  unfold key_compare.
  rewrite (label_compare_antisym (fst a) (fst b)).
  destruct (label_compare (fst a) (fst b)); simpl; try reflexivity.
  apply Z.compare_antisym.
Qed.

Lemma key_leb_total (a b : Key) : key_leb a b = false -> key_leb b a = true.
Proof.
  unfold key_leb. rewrite (key_compare_antisym a b).
  destruct (key_compare a b); simpl; congruence.
Qed.

Lemma label_compare_refl (a : label) : label_compare a a = Eq.
Proof.
  destruct a as [x|s]; simpl.
  - apply Z.compare_refl.
  - pose proof (String.compare_antisym s s) as H.
    destruct (String.compare s s); simpl in H; congruence.
Qed.

Lemma key_eqb_refl (k : Key) : key_eqb k k = true.
Proof.
  unfold key_eqb, key_compare.
  rewrite label_compare_refl, Z.compare_refl. reflexivity.
Qed.

Lemma label_compare_eq (a b : label) : label_compare a b = Eq -> a = b.
Proof.
  destruct a as [x|s], b as [y|t]; simpl; try discriminate.
  - intros H. apply Z.compare_eq in H. now subst.
  - intros H. apply String.compare_eq_iff in H. now subst.
Qed.

Lemma key_eqb_eq (a b : Key) : key_eqb a b = true -> a = b.
Proof.
  unfold key_eqb, key_compare. destruct a as [la ra], b as [lb rb]; simpl.
  destruct (label_compare la lb) eqn:E; try discriminate.
  destruct (Z.compare ra rb) eqn:F; try discriminate.
  intros _. apply label_compare_eq in E. apply Z.compare_eq in F. now subst.
Qed.

Lemma label_lt_trans (a b c : label) :
  label_compare a b = Lt -> label_compare b c = Lt -> label_compare a c = Lt.
Proof.
  destruct a as [x|s], b as [y|t], c as [z|u]; simpl; try congruence.
  - rewrite !Z.compare_lt_iff. lia.
  - intros H1 H2.
    apply String_as_OT.cmp_lt in H1. apply String_as_OT.cmp_lt in H2.
    apply String_as_OT.cmp_lt. eapply String_as_OT.lt_trans; eassumption.
Qed.

Lemma key_lt_trans (a b c : Key) :
  key_compare a b = Lt -> key_compare b c = Lt -> key_compare a c = Lt.
Proof.
  unfold key_compare.
  destruct (label_compare (fst a) (fst b)) eqn:E1; try discriminate;
    destruct (label_compare (fst b) (fst c)) eqn:E2; try discriminate;
    intros H1 H2.
  - apply label_compare_eq in E1. apply label_compare_eq in E2.
    rewrite E1, E2, label_compare_refl.
    rewrite Z.compare_lt_iff in *. lia.
  - apply label_compare_eq in E1. rewrite E1, E2. reflexivity.
  - apply label_compare_eq in E2. rewrite <- E2, E1. reflexivity.
  - now rewrite (label_lt_trans _ _ _ E1 E2).
Qed.

Lemma key_compare_eq (a b : Key) : key_compare a b = Eq -> a = b.
Proof.
  intros H. apply key_eqb_eq. unfold key_eqb. now rewrite H.
Qed.

Lemma key_leb_trans (a b c : Key) :
  key_leb a b = true -> key_leb b c = true -> key_leb a c = true.
Proof.
  unfold key_leb.
  destruct (key_compare a b) eqn:E1; try discriminate;
    destruct (key_compare b c) eqn:E2; try discriminate; intros _ _.
  - apply key_compare_eq in E1. subst. now rewrite E2.
  - apply key_compare_eq in E1. subst. now rewrite E2.
  - apply key_compare_eq in E2. subst. now rewrite E1.
  - now rewrite (key_lt_trans _ _ _ E1 E2).
Qed.

End Order.

Section Sorting.

Lemma insert_row_perm (x : Row) (l : list Row) :
  Permutation (insert_row x l) (x :: l).
Proof.
  induction l as [|y l IH]; simpl.
  - apply Permutation_refl.
  - destruct (key_leb (fst x) (fst y)).
    + apply Permutation_refl.
    + eapply perm_trans; [apply perm_skip, IH | apply perm_swap].
Qed.

Lemma sort_index_perm (l : list Row) : Permutation (sort_index l) l.
Proof.
  induction l as [|x l IH]; simpl.
  - apply perm_nil.
  - eapply perm_trans; [apply insert_row_perm | apply perm_skip, IH].
Qed.

Lemma insert_row_hd (x a : Row) (l : list Row) :
  HdRel key_le a l -> key_le a x -> HdRel key_le a (insert_row x l).
Proof.
  intros Hl Hx. destruct l as [|y l]; simpl.
  - now constructor.
  - destruct (key_leb (fst x) (fst y)); constructor; auto.
    now inversion Hl.
Qed.

Lemma insert_row_sorted (x : Row) (l : list Row) :
  Sorted key_le l -> Sorted key_le (insert_row x l).
Proof.
  induction 1 as [|y l Hs IH Hhd]; simpl.
  - repeat constructor.
  - destruct (key_leb (fst x) (fst y)) eqn:E.
    + constructor; [now constructor | now constructor].
    + constructor; [exact IH |].
      apply insert_row_hd; [exact Hhd |].
      unfold key_le. now apply key_leb_total.
Qed.

Lemma sort_index_sorted (l : list Row) : Sorted key_le (sort_index l).
Proof.
  induction l as [|x l IH]; simpl.
  - constructor.
  - now apply insert_row_sorted.
Qed.

(** Rows that are already in order are left where they are, so equal keys
    keep their order. *)
Lemma sort_index_id (l : list Row) : Sorted key_le l -> sort_index l = l.
Proof.
  induction 1 as [|y l Hs IH Hhd]; simpl; [reflexivity |].
  rewrite IH. destruct Hhd as [|z l Hz]; simpl; [reflexivity |].
  unfold key_le in Hz. now rewrite Hz.
Qed.

Lemma key_le_trans : Transitive key_le.
Proof.
  intros a b c. unfold key_le. apply key_leb_trans.
Qed.

Lemma sort_index_strongly_sorted (l : list Row) :
  StronglySorted key_le (sort_index l).
Proof.
  apply Sorted_StronglySorted; [exact key_le_trans | apply sort_index_sorted].
Qed.

End Sorting.

Section Indexing.

Lemma normalize_index_nonneg (n : nat) (i : Z) :
  (0 <= i < Z.of_nat n)%Z -> normalize_index n i = Some (Z.to_nat i).
Proof.
  intros [H1 H2]. unfold normalize_index.
  apply Z.leb_le in H1. apply Z.ltb_lt in H2. now rewrite H1, H2.
Qed.

Lemma normalize_index_neg (n : nat) (i : Z) :
  (- Z.of_nat n <= i < 0)%Z ->
  normalize_index n i = Some (Z.to_nat (Z.of_nat n + i)).
Proof.
  intros [H1 H2]. unfold normalize_index.
  assert (E : (0 <=? i)%Z = false) by (apply Z.leb_gt; lia).
  rewrite E. simpl.
  apply Z.leb_le in H1. apply Z.ltb_lt in H2. now rewrite H1, H2.
Qed.

Lemma normalize_index_out (n : nat) (i : Z) :
  (i < - Z.of_nat n \/ Z.of_nat n <= i)%Z -> normalize_index n i = None.
Proof.
  intros H. unfold normalize_index.
  destruct (Z.leb_spec 0 i), (Z.ltb_spec i (Z.of_nat n)),
    (Z.leb_spec (- Z.of_nat n) i), (Z.ltb_spec i 0); simpl; try reflexivity; lia.
Qed.

Lemma normalize_index_in (n : nat) (i : Z) :
  (- Z.of_nat n <= i < Z.of_nat n)%Z ->
  exists r, normalize_index n i = Some r /\ (r < n)%nat.
Proof.
  intros H. destruct (Z.neg_nonneg_cases i) as [Hi|Hi].
  - exists (Z.to_nat (Z.of_nat n + i)). split; [|lia].
    apply normalize_index_neg; lia.
  - exists (Z.to_nat i). split; [|lia].
    apply normalize_index_nonneg; lia.
Qed.

Lemma nth_seq_map {A : Type} (d : A) (l : list A) :
  map (fun i => nth i l d) (seq 0 (length l)) = l.
Proof.
  apply nth_ext with (d := d) (d' := d).
  - now rewrite length_map, length_seq.
  - intros k Hk. rewrite length_map, length_seq in Hk.
    rewrite (nth_indep _ d (nth 0%nat l d)).
    + rewrite (map_nth (fun i => nth i l d) (seq 0 (length l)) 0%nat k).
      now rewrite seq_nth.
    + now rewrite length_map, length_seq.
Qed.

Lemma combine_map_seq {A B : Type} (f : nat -> A) (g : nat -> B) (l : list nat) :
  combine (map f l) (map g l) = map (fun i => (f i, g i)) l.
Proof.
  induction l as [|x l IH]; simpl; [reflexivity | now rewrite IH].
Qed.

Lemma has_name_false (c : string) (names : list string) :
  ~ In c names -> has_name c names = false.
Proof.
  intros H. unfold has_name.
  destruct (existsb (String.eqb c) names) eqn:E; [|reflexivity].
  apply existsb_exists in E. destruct E as [x [Hx Hc]].
  apply String.eqb_eq in Hc. subst. contradiction.
Qed.

Lemma length_removelast_pred {A : Type} (l : list A) :
  length (removelast l) = (length l - 1)%nat.
Proof.
  rewrite removelast_firstn_len, length_firstn. lia.
Qed.

(** On a valid cube and an index in range the extractor reaches its last
    line: the rows of the slice, relabelled and sorted. *)
Lemma load_realization_run (ds : Dataset) (realization : Z) (r : nat) :
  valid_cube ds ->
  normalize_index (dim_realization (ds_data ds)) realization = Some r ->
  load_realization ds realization =
    inr (mkTable (removelast (ds_analytes ds)) (sort_index (slice_rows ds r))).
Proof.
  intros (Ha & Hc & Hr & Nc & Nr) Hi.
  unfold load_realization, isel. rewrite Hi.
  rewrite length_removelast_pred, Ha, Nat.eqb_refl. simpl negb. cbv iota.
  rewrite (has_name_false "control" _ Nc), Hc, Nat.eqb_refl. simpl orb. cbv iota.
  rewrite (has_name_false "round" _ Nr), Hr, Nat.eqb_refl. simpl orb. cbv iota.
  do 2 f_equal. unfold slice_rows, slice_at.
  rewrite <- (nth_seq_map 0%Z (ds_control ds)) at 1.
  rewrite <- (nth_seq_map 0%Z (ds_round ds)) at 1.
  rewrite Hc, Hr, map_map, !combine_map_seq. reflexivity.
Qed.

End Indexing.

Section Extractor.

Lemma cube0_valid : valid_cube cube0.
Proof.
  unfold valid_cube; simpl. repeat split; try reflexivity;
    intros H; repeat (destruct H as [H|H]; [discriminate|]); exact H.
Qed.

Lemma cube_tag2_valid : valid_cube cube_tag2.
Proof.
  unfold valid_cube; simpl. repeat split; try reflexivity;
    intros H; repeat (destruct H as [H|H]; [discriminate|]); exact H.
Qed.

(** C5.  On a valid cube whose names list has at least two entries, and for
    an index within the third axis, [load_realization] returns a table with
    one column per analyte name but the last; its rows are in ascending
    order of (plot-type label, round), tag 1 reads "control" and tag 0 reads
    "treatment", and the rows are exactly those of the selected slice (a
    permutation of them, values untouched). *)
Theorem load_realization_table (ds : Dataset) (realization : Z) :
  valid_cube ds ->
  (2 <= length (ds_analytes ds))%nat ->
  (0 <= realization < Z.of_nat (dim_realization (ds_data ds)))%Z ->
  exists t,
    load_realization ds realization = inr t
    /\ length (columns t) = (length (ds_analytes ds) - 1)%nat
    /\ Forall (fun row : Row =>
                 length (snd row) = (length (ds_analytes ds) - 1)%nat) (rows t)
    /\ StronglySorted key_le (rows t)
    /\ Permutation (rows t) (slice_rows ds (Z.to_nat realization))
    /\ replace tag_names 1 = LStr "control"
    /\ replace tag_names 0 = LStr "treatment".
Proof.
  intros Hv Hn Hi.
  pose proof (load_realization_run ds realization _ Hv
                (normalize_index_nonneg _ _ Hi)) as Hrun.
  eexists. split; [exact Hrun |]. simpl.
  split; [apply length_removelast_pred |].
  split.
  - eapply Permutation_Forall; [apply Permutation_sym, sort_index_perm |].
    unfold slice_rows. apply Forall_forall. intros row Hrow.
    apply in_map_iff in Hrow. destruct Hrow as [i [<- _]].
    unfold slice_row; simpl. rewrite length_map, length_seq.
    destruct Hv as [Ha _]. now rewrite Ha.
  - split; [apply sort_index_strongly_sorted |].
    split; [apply sort_index_perm |]. split; reflexivity.
Qed.

Lemma load_realization_table_witness :
  exists t,
    load_realization cube0 1 = inr t
    /\ length (columns t) = 2%nat
    /\ Forall (fun row : Row => length (snd row) = 2%nat) (rows t)
    /\ StronglySorted key_le (rows t)
    /\ Permutation (rows t) (slice_rows cube0 1)
    /\ replace tag_names 1 = LStr "control"
    /\ replace tag_names 0 = LStr "treatment".
Proof.
  apply (load_realization_table cube0 1 cube0_valid); simpl; lia.
Defined.

(** C7 as stated fails: the index -1 is outside [0, n), yet it selects the
    last realization and a table is returned. *)
Lemma index_minus_one_returns_table :
  ~ (0 <= -1 < Z.of_nat (dim_realization (ds_data cube0)))%Z
  /\ load_realization cube0 (-1) <> inl IndexError
  /\ exists t, load_realization cube0 (-1) = inr t.
Proof.
  split; [simpl; lia |].
  split; [vm_compute; discriminate |].
  eexists. vm_compute. reflexivity.
Qed.

(** C7, amended.  For every cube and every index below [-n] or at least
    [n], where [n] is the length of the third axis, [load_realization]
    raises IndexError and returns no table. *)
Theorem load_realization_out_of_range (ds : Dataset) (realization : Z) :
  (realization < - Z.of_nat (dim_realization (ds_data ds))
   \/ Z.of_nat (dim_realization (ds_data ds)) <= realization)%Z ->
  load_realization ds realization = inl IndexError.
Proof.
  intros H. unfold load_realization, isel.
  now rewrite (normalize_index_out _ _ H).
Qed.

Lemma load_realization_out_of_range_witness :
  load_realization cube0 2 = inl IndexError
  /\ load_realization cube0 (-3) = inl IndexError.
Proof.
  split; apply load_realization_out_of_range; simpl; lia.
Defined.

(** C9.  On a valid cube and an index in range, a tag other than 0 and 1
    does not make [load_realization] fail: the table is returned, every such
    tag is a label of its first index level as it is, and the tags 1 and 0
    that occur are there as "control" and "treatment". *)
Theorem load_realization_unmapped_tag (ds : Dataset) (realization : Z) (z : Z) :
  valid_cube ds ->
  (- Z.of_nat (dim_realization (ds_data ds)) <= realization
   < Z.of_nat (dim_realization (ds_data ds)))%Z ->
  In z (ds_control ds) -> z <> 0%Z -> z <> 1%Z ->
  exists t,
    load_realization ds realization = inr t
    /\ In (LInt z) (map (fun row : Row => fst (fst row)) (rows t))
    /\ (In 1%Z (ds_control ds) ->
        In (LStr "control") (map (fun row : Row => fst (fst row)) (rows t)))
    /\ (In 0%Z (ds_control ds) ->
        In (LStr "treatment") (map (fun row : Row => fst (fst row)) (rows t))).
Proof.
  intros Hv Hi Hz Hz0 Hz1.
  destruct (normalize_index_in _ _ Hi) as [r [Hr _]].
  rewrite (load_realization_run ds realization r Hv Hr).
  eexists. split; [reflexivity |]. simpl.
  assert (Hlab : forall y, In y (ds_control ds) ->
            In (replace tag_names y)
               (map (fun row : Row => fst (fst row)) (sort_index (slice_rows ds r)))).
  { intros y Hy.
    eapply Permutation_in;
      [apply Permutation_map, Permutation_sym, sort_index_perm |].
    destruct (In_nth _ _ 0%Z Hy) as [i [Hi' Hnth]].
    apply in_map_iff. exists (slice_row ds r i). split.
    - unfold slice_row; simpl. now rewrite Hnth.
    - unfold slice_rows. apply in_map, in_seq.
      destruct Hv as (_ & Hc & _). lia. }
  split; [| split].
  - replace (LInt z) with (replace tag_names z); [now apply Hlab |].
    simpl. destruct (Z.eqb_spec z 1); [contradiction |].
    destruct (Z.eqb_spec z 0); [contradiction | reflexivity].
  - intros H1. exact (Hlab 1%Z H1).
  - intros H0. exact (Hlab 0%Z H0).
Qed.

Lemma load_realization_unmapped_tag_witness :
  exists t,
    load_realization cube_tag2 0 = inr t
    /\ In (LInt 2) (map (fun row : Row => fst (fst row)) (rows t))
    /\ (In 1%Z (ds_control cube_tag2) ->
        In (LStr "control") (map (fun row : Row => fst (fst row)) (rows t)))
    /\ (In 0%Z (ds_control cube_tag2) ->
        In (LStr "treatment") (map (fun row : Row => fst (fst row)) (rows t))).
Proof.
  apply (load_realization_unmapped_tag cube_tag2 0 2 cube_tag2_valid);
    simpl; lia.
Defined.

(** C10.  On a valid cube with [n] realizations, a negative index
    [-n <= i < 0] raises nothing: the table returned is the one of the
    slice [n + i] counted from the end, so that the index -1 gives the
    table of index [n - 1]. *)
Theorem load_realization_negative_index (ds : Dataset) (realization : Z) :
  valid_cube ds ->
  (- Z.of_nat (dim_realization (ds_data ds)) <= realization < 0)%Z ->
  exists t,
    load_realization ds realization = inr t
    /\ load_realization ds (Z.of_nat (dim_realization (ds_data ds)) + realization)
       = inr t
    /\ Permutation (rows t)
         (slice_rows ds
            (Z.to_nat (Z.of_nat (dim_realization (ds_data ds)) + realization))).
Proof.
  intros Hv Hi.
  rewrite (load_realization_run ds realization _ Hv (normalize_index_neg _ _ Hi)).
  assert (Hj : (0 <= Z.of_nat (dim_realization (ds_data ds)) + realization
                < Z.of_nat (dim_realization (ds_data ds)))%Z) by lia.
  rewrite (load_realization_run ds _ _ Hv (normalize_index_nonneg _ _ Hj)).
  eexists. split; [reflexivity |]. split; [reflexivity |].
  apply sort_index_perm.
Qed.

Lemma load_realization_negative_index_witness :
  exists t,
    load_realization cube0 (-1) = inr t
    /\ load_realization cube0 (2 + -1) = inr t
    /\ Permutation (rows t) (slice_rows cube0 (Z.to_nat (2 + -1))).
Proof.
  apply (load_realization_negative_index cube0 (-1) cube0_valid); simpl; lia.
Defined.

End Extractor.

(** * Properties of the builder *)

Section Arrays.

Lemma dim_ok_refl (n : nat) : dim_ok n n = true.
Proof. unfold dim_ok. now rewrite Nat.eqb_refl. Qed.

Lemma np_binop_same_shape (f : Q -> Q -> Q) (a b : ndarray) :
  shape a = shape b -> np_binop f a b = Some (bzip (bzip f) a b).
Proof.
  intros H. unfold np_binop. rewrite H, !dim_ok_refl. reflexivity.
Qed.

Lemma length_bzip_same {A : Type} (f : A -> A -> A) (xs ys : list A) :
  length xs = length ys -> length (bzip f xs ys) = length xs.
Proof.
  intros H. unfold bzip.
  destruct xs as [|x [|x' xs]], ys as [|y [|y' ys]]; simpl in *; try lia.
  rewrite length_map, length_combine. lia.
Qed.

Lemma shape_bzip_same (f : Q -> Q -> Q) (a b : ndarray) :
  shape a = shape b -> shape (bzip (bzip f) a b) = shape a.
Proof.
  unfold shape. intros H. injection H as H1 H2.
  destruct a as [|x [|x' a]], b as [|y [|y' b]]; simpl in *; try lia;
    try reflexivity.
  - now rewrite length_bzip_same.
  - rewrite length_map, length_combine, length_bzip_same by assumption.
    f_equal. lia.
Qed.

Lemma shape_np_div_scalar (a : ndarray) (q : Q) :
  shape (np_div_scalar a q) = shape a.
Proof.
  unfold shape, np_div_scalar. rewrite length_map.
  destruct a as [|x a]; simpl; [reflexivity | now rewrite length_map].
Qed.

(** A slice of a well-formed table with two columns is a [k] x 2 array with
    at least one row. *)
Lemma loc_shape (df : Table) (l : label) (r : Z) (a : ndarray) :
  table_wf df -> length (columns df) = 2%nat ->
  loc df l r = Some a -> shape a = (length a, 2%nat).
Proof.
  intros Hwf Hc. unfold loc.
  match goal with
  | |- context [filter ?f ?rs] => destruct (filter f rs) as [|row sel] eqn:E
  end; [intros H; discriminate H |].
  intros H. injection H as <-. unfold shape. simpl. f_equal.
  assert (Hin : In row (rows df)).
  { eapply (proj1 (filter_In _ _ _)). rewrite E. now left. }
  unfold table_wf in Hwf. rewrite Forall_forall in Hwf.
  now rewrite (Hwf row Hin).
Qed.

Lemma has_slice_shape (df : Table) (k : nat) (l : string) (r : Z) :
  table_wf df -> length (columns df) = 2%nat -> has_slice df k l r ->
  exists a, loc df (LStr l) r = Some a /\ shape a = (k, 2%nat).
Proof.
  intros Hwf Hc [a [Ha Hk]]. exists a. split; [exact Ha |].
  rewrite (loc_shape _ _ _ _ Hwf Hc Ha). now rewrite Hk.
Qed.

End Arrays.

Section Run.

Local Arguments loc : simpl never.
Local Arguments np_binop : simpl never.
Local Arguments np_div_scalar : simpl never.
Local Arguments np_add : simpl never.
Local Arguments np_sub : simpl never.

Ltac run_init_model :=
  unfold init_model, bind, pm_Model, pm_rv, pm_Deterministic, register,
    df_loc, np, ret, raise, current_model;
  cbn;
  repeat (match goal with
          | H : loc _ _ _ = _ |- _ => rewrite H
          | H : np_add _ _ = _ |- _ => rewrite H
          | H : np_sub _ _ = _ |- _ => rewrite H
          end; cbn).

Ltac in_graph := simpl; repeat (first [left; reflexivity | right]).

(** With its six slices in place, [init_model] declares the 29 variables
    and returns the model; the table and the trace are as before. *)
Lemma init_model_run (w : World) (t1 t2 t3 c1 c2 c3 : ndarray) (k : nat) :
  loc (w_df w) (LStr "treatment") 1 = Some t1 ->
  loc (w_df w) (LStr "treatment") 2 = Some t2 ->
  loc (w_df w) (LStr "treatment") 3 = Some t3 ->
  loc (w_df w) (LStr "control") 1 = Some c1 ->
  loc (w_df w) (LStr "control") 2 = Some c2 ->
  loc (w_df w) (LStr "control") 3 = Some c3 ->
  shape t1 = (k, 2%nat) -> shape t2 = (k, 2%nat) ->
  shape c1 = (k, 2%nat) -> shape c2 = (k, 2%nat) -> shape c3 = (k, 2%nat) ->
  exists G,
    init_model w = (inr G, mkWorld (w_df w) G (w_trace w))
    /\ map node_name G = node_names
    /\ In (mkNode "wet feedstock mass"
             (Latent (Normal (Const 12800) (Const 100)) None)) G
    /\ In (mkNode "feedstock moisture fraction"
             (Latent (Normal (Const 0.125) (Const 0.025)) None)) G
    /\ In (mkNode "dry feedstock mass"
             (Deterministic
                ((Const 1 - Ref "feedstock moisture fraction")
                 * Ref "wet feedstock mass"))) G
    /\ In (mkNode "mixing fraction"
             (Deterministic
                (Ref "application rate"
                 / (Ref "application rate" + Ref "soil mass")))) G
    /\ In (mkNode "weathered concentration"
             (Deterministic
                (Arr t2 - (Ref "concentration loss" - Ref "control change")))) G
    /\ In (mkNode "obs enriched"
             (Observed (Normal (Ref "enrichment") (Ref "enrichment sigma"))
                (bzip (bzip Qminus) t2 t1))) G.
Proof.
  intros T1 T2 T3 C1 C2 C3 S1 S2 S3 S4 S5.
  destruct w as [df m tr]. simpl in *.
  assert (E1 : np_sub t2 t1 = Some (bzip (bzip Qminus) t2 t1)).
  { apply np_binop_same_shape. congruence. }
  assert (E2 : np_add (np_div_scalar c1 2) (np_div_scalar c2 2)
               = Some (bzip (bzip Qplus) (np_div_scalar c1 2)
                         (np_div_scalar c2 2))).
  { apply np_binop_same_shape. rewrite !shape_np_div_scalar. congruence. }
  assert (E3 : np_sub c3 (bzip (bzip Qplus) (np_div_scalar c1 2)
                            (np_div_scalar c2 2))
               = Some (bzip (bzip Qminus) c3
                         (bzip (bzip Qplus) (np_div_scalar c1 2)
                            (np_div_scalar c2 2)))).
  { apply np_binop_same_shape.
    rewrite shape_bzip_same; rewrite !shape_np_div_scalar; congruence. }
  eexists. split; [run_init_model; reflexivity |].
  split; [reflexivity |].
  repeat split; in_graph.
Qed.


End Run.

Section Frame.

Lemma frame_ret {A : Type} (x : A) : frame (ret x).
Proof. intros w. now split. Qed.

Lemma frame_raise {A : Type} (e : exn) : frame (@raise A e).
Proof. intros w. now split. Qed.


Lemma frame_pm_Model : frame pm_Model.
Proof. intros w. now split. Qed.

Lemma frame_current_model : frame current_model.
Proof. intros w. now split. Qed.

Lemma frame_register (n : Node) : frame (register n).
Proof.
  intros w. unfold register.
  destruct (has_name _ _); now split.
Qed.

Lemma frame_df_loc (l : string) (r : Z) : frame (df_loc l r).
Proof.
  intros w. unfold df_loc. destruct (loc _ _ _); now split.
Qed.

Lemma frame_np (o : option ndarray) : frame (np o).
Proof. destruct o; [apply frame_ret | apply frame_raise]. Qed.

Lemma frame_pm_rv name d shp observed : frame (pm_rv name d shp observed).
Proof. apply frame_register. Qed.

Lemma frame_pm_Deterministic name e : frame (pm_Deterministic name e).
Proof. apply frame_register. Qed.

Create HintDb frame.
#[local] Hint Resolve frame_ret frame_raise frame_pm_Model frame_current_model
  frame_df_loc frame_np frame_pm_rv frame_pm_Deterministic : frame.


End Frame.

Section Sampling.

Lemma lookup_forward_old (g : list Node) (draw en s : env) (x : string) :
  forward g draw en = Some s -> ~ In x (map node_name g) ->
  lookup x s = lookup x en.
Proof.
  revert en. induction g as [|n g IH]; intros en; simpl.
  - intros H _. now injection H as <-.
  - destruct (node_value draw en n) as [v|]; simpl; [|discriminate].
    intros H Hx. rewrite (IH _ H); [|tauto]. simpl.
    destruct (String.eqb_spec x (node_name n)); [|reflexivity].
    exfalso. apply Hx. left. now symmetry.
Qed.

(** Every node of a sample was computed over values that are still the
    ones of the finished sample. *)
Lemma forward_node (g : list Node) (draw en s : env) (n : Node) :
  forward g draw en = Some s ->
  NoDup (map node_name g) ->
  (forall x, In x (map node_name g) -> lookup x en = None) ->
  In n g ->
  exists en' v,
    node_value draw en' n = Some v
    /\ lookup (node_name n) s = Some v
    /\ extends en' s.
Proof.
  revert en. induction g as [|h g IH]; intros en Hf Hnd Hfresh Hin;
    [destruct Hin |].
  simpl in Hf, Hnd, Hfresh. inversion Hnd as [|? ? Hh Hnd']; subst.
  destruct (node_value draw en h) as [v|] eqn:Ev; simpl in Hf; [|discriminate].
  destruct Hin as [->|Hin].
  - exists en, v. split; [exact Ev |]. split.
    + rewrite (lookup_forward_old _ _ _ _ _ Hf Hh). simpl.
      now rewrite String.eqb_refl.
    + intros x u Hx.
      assert (Hn : ~ In x (map node_name g)).
      { intros Hc. rewrite (Hfresh x (or_intror Hc)) in Hx. discriminate. }
      rewrite (lookup_forward_old _ _ _ _ _ Hf Hn). simpl.
      destruct (String.eqb_spec x (node_name n)) as [->|]; [|exact Hx].
      rewrite (Hfresh _ (or_introl eq_refl)) in Hx. discriminate.
  - apply (IH _ Hf Hnd'); [|exact Hin].
    intros x Hx. simpl.
    destruct (String.eqb_spec x (node_name h)) as [->|]; [contradiction |].
    apply Hfresh. now right.
Qed.

Lemma eval_extends (e1 e2 : env) (e : expr) (v : ndarray) :
  extends e1 e2 -> eval e1 e = Some v -> eval e2 e = Some v.
Proof.
  intros Hx. revert v.
  induction e as [q|a|x|a IHa b IHb|a IHa b IHb|a IHa b IHb|a IHa b IHb|a IHa];
    intros v; simpl; try (intros H; exact H).
  - apply Hx.
  - destruct (eval e1 a) as [u|]; [|discriminate]. rewrite (IHa u eq_refl).
    simpl. destruct (eval e1 b) as [u'|]; [|discriminate].
    now rewrite (IHb u' eq_refl).
  - destruct (eval e1 a) as [u|]; [|discriminate]. rewrite (IHa u eq_refl).
    simpl. destruct (eval e1 b) as [u'|]; [|discriminate].
    now rewrite (IHb u' eq_refl).
  - destruct (eval e1 a) as [u|]; [|discriminate]. rewrite (IHa u eq_refl).
    simpl. destruct (eval e1 b) as [u'|]; [|discriminate].
    now rewrite (IHb u' eq_refl).
  - destruct (eval e1 a) as [u|]; [|discriminate]. rewrite (IHa u eq_refl).
    simpl. destruct (eval e1 b) as [u'|]; [|discriminate].
    now rewrite (IHb u' eq_refl).
  - destruct (eval e1 a) as [u|]; [|discriminate]. now rewrite (IHa u eq_refl).
Qed.

(** In a sample, a deterministic node is its expression over that sample. *)
Lemma sample_deterministic (g : list Node) (draw s : env) (x : string) (e : expr) :
  forward g draw [] = Some s ->
  NoDup (map node_name g) ->
  In (mkNode x (Deterministic e)) g ->
  exists v, lookup x s = Some v /\ eval s e = Some v.
Proof.
  intros Hf Hnd Hin.
  destruct (forward_node _ _ _ _ _ Hf Hnd (fun _ _ => eq_refl) Hin)
    as (en' & v & Hv & Hl & Hx).
  exists v. split; [exact Hl |].
  unfold node_value in Hv. simpl in Hv. exact (eval_extends _ _ _ _ Hx Hv).
Qed.

Lemma shape_scalar (v : ndarray) :
  shape_eqb (shape v) (1%nat, 1%nat) = true -> exists q, v = scalar q.
Proof.
  unfold shape_eqb, shape. simpl. intros H.
  apply andb_true_iff in H. destruct H as [H1 H2].
  apply Nat.eqb_eq in H1. apply Nat.eqb_eq in H2.
  destruct v as [|[|q [|q' row]] [|row' v]]; simpl in *; try discriminate.
  now exists q.
Qed.

(** In a sample, a latent variable declared with scalar parameters and no
    shape is a scalar. *)
Lemma sample_scalar_normal (g : list Node) (draw s : env) (x : string) (mu sigma : Q) :
  forward g draw [] = Some s ->
  NoDup (map node_name g) ->
  In (mkNode x (Latent (Normal (Const mu) (Const sigma)) None)) g ->
  exists q, lookup x s = Some (scalar q).
Proof.
  intros Hf Hnd Hin.
  destruct (forward_node _ _ _ _ _ Hf Hnd (fun _ _ => eq_refl) Hin)
    as (en' & v & Hv & Hl & _).
  unfold node_value in Hv. simpl in Hv.
  destruct (lookup x draw) as [u|]; simpl in Hv; [|discriminate].
  match type of Hv with
  | (if ?c then _ else _) = _ => destruct c eqn:E; [|discriminate]
  end.
  injection Hv as <-. destruct (shape_scalar u E) as [q ->].
  exists q. exact Hl.
Qed.

Lemma node_names_nodup : NoDup node_names.
Proof.
  unfold node_names.
  repeat (constructor; [simpl; intros H;
    repeat (destruct H as [H|H]; [discriminate H |]); exact H |]).
  constructor.
Qed.

End Sampling.

Section Builder.

(** What [build] returns on a table that meets the precondition. *)
Lemma build_graph (df : Table) (g : list Node) :
  build_pre df -> build df = inr g ->
  exists t1 t2 t3,
    loc df (LStr "treatment") 1 = Some t1
    /\ loc df (LStr "treatment") 2 = Some t2
    /\ loc df (LStr "treatment") 3 = Some t3
    /\ map node_name g = node_names
    /\ In (mkNode "wet feedstock mass"
             (Latent (Normal (Const 12800) (Const 100)) None)) g
    /\ In (mkNode "feedstock moisture fraction"
             (Latent (Normal (Const 0.125) (Const 0.025)) None)) g
    /\ In (mkNode "dry feedstock mass"
             (Deterministic
                ((Const 1 - Ref "feedstock moisture fraction")
                 * Ref "wet feedstock mass"))) g
    /\ In (mkNode "mixing fraction"
             (Deterministic
                (Ref "application rate"
                 / (Ref "application rate" + Ref "soil mass")))) g
    /\ In (mkNode "weathered concentration"
             (Deterministic
                (Arr t2 - (Ref "concentration loss" - Ref "control change")))) g
    /\ In (mkNode "obs enriched"
             (Observed (Normal (Ref "enrichment") (Ref "enrichment sigma"))
                (bzip (bzip Qminus) t2 t1))) g.
Proof.
  intros (Hwf & Hc & k & H1 & H2 & H3 & H4 & H5 & H6) Hb.
  destruct (has_slice_shape _ _ _ _ Hwf Hc H1) as (t1 & T1 & S1).
  destruct (has_slice_shape _ _ _ _ Hwf Hc H2) as (t2 & T2 & S2).
  destruct (has_slice_shape _ _ _ _ Hwf Hc H3) as (t3 & T3 & S3).
  destruct (has_slice_shape _ _ _ _ Hwf Hc H4) as (c1 & C1 & S4).
  destruct (has_slice_shape _ _ _ _ Hwf Hc H5) as (c2 & C2 & S5).
  destruct (has_slice_shape _ _ _ _ Hwf Hc H6) as (c3 & C3 & S6).
  destruct (init_model_run (mkWorld df [] []) t1 t2 t3 c1 c2 c3 k
              T1 T2 T3 C1 C2 C3 S1 S2 S4 S5 S6) as (G & Hrun & Hfacts).
  unfold build in Hb. rewrite Hrun in Hb. simpl in Hb. injection Hb as <-.
  exists t1, t2, t3. repeat (split; [assumption |]). exact Hfacts.
Qed.


Lemma synthetic_pre : build_pre synthetic.
Proof.
  split; [repeat constructor |]. split; [reflexivity |].
  exists 1%nat. repeat split; eexists; (split; [vm_compute; reflexivity |]);
    reflexivity.
Qed.













(** C4.  On every table that meets the precondition, in every sample of
    the model the moisture fraction [m] and the wet mass [w] are scalars
    and the dry feedstock mass is exactly [(1 - m) * w], hence within any
    tolerance of it. *)
Theorem dry_feedstock_mass_identity (df : Table) (g : list Node) (draw s : env) :
  build_pre df -> build df = inr g -> forward g draw [] = Some s ->
  exists m w,
    lookup "feedstock moisture fraction" s = Some (scalar m)
    /\ lookup "wet feedstock mass" s = Some (scalar w)
    /\ lookup "dry feedstock mass" s = Some (scalar ((1 - m) * w))
    /\ forall eps, 0 <= eps ->
         Qabs (nth 0 (nth 0 (value_of "dry feedstock mass" s) []) 0
               - (1 - m) * w) <= eps.
Proof.
  intros Hpre Hb Hf.
  destruct (build_graph df g Hpre Hb)
    as (t1 & t2 & t3 & T1 & T2 & T3 & Hn & Hwet & Hmoist & Hdry & _).
  assert (Hnd : NoDup (map node_name g))
    by (rewrite Hn; exact node_names_nodup).
  destruct (sample_scalar_normal g draw s _ _ _ Hf Hnd Hwet) as [w Hw].
  destruct (sample_scalar_normal g draw s _ _ _ Hf Hnd Hmoist) as [m Hm].
  destruct (sample_deterministic g draw s _ _ Hf Hnd Hdry) as (v & Hl & Hv).
  simpl in Hv. rewrite Hm, Hw in Hv. simpl in Hv.
  injection Hv as <-.
  exists m, w. repeat split; try assumption.
  intros eps Heps. unfold value_of. rewrite Hl.
  change (nth 0 (nth 0 (scalar ((1 - m) * w)) []) 0) with ((1 - m) * w).
  assert (E : (1 - m) * w - (1 - m) * w == 0) by ring.
  rewrite E. exact Heps.
Qed.

Lemma dry_feedstock_mass_identity_witness :
  exists m w,
    lookup "feedstock moisture fraction" sample0 = Some (scalar m)
    /\ lookup "wet feedstock mass" sample0 = Some (scalar w)
    /\ lookup "dry feedstock mass" sample0 = Some (scalar ((1 - m) * w))
    /\ forall eps, 0 <= eps ->
         Qabs (nth 0 (nth 0 (value_of "dry feedstock mass" sample0) []) 0
               - (1 - m) * w) <= eps.
Proof.
  apply (dry_feedstock_mass_identity synthetic graph0 draw0 sample0).
  - exact synthetic_pre.
  - vm_compute. reflexivity.
  - vm_compute. reflexivity.
Defined.





End Builder.

(** * Further properties of the extractor *)

Section ExtractorShape.

Lemma extracted_wf (ds : Dataset) (r : nat) :
  valid_cube ds ->
  table_wf (mkTable (removelast (ds_analytes ds)) (sort_index (slice_rows ds r))).
Proof.
  intros Hv. unfold table_wf. simpl.
  eapply Permutation_Forall; [apply Permutation_sym, sort_index_perm |].
  apply Forall_forall. intros row Hrow. unfold slice_rows in Hrow.
  apply in_map_iff in Hrow. destruct Hrow as [i [<- _]].
  unfold slice_row; simpl. rewrite length_map, length_seq.
  rewrite length_removelast_pred. destruct Hv as [Ha _]. now rewrite Ha.
Qed.

(** X1.  On a valid cube and an index in range (negative indices included)
    the table returned has one row per sample, its columns are the analyte
    names but the last, and every row is as wide as the column list. *)
Theorem load_realization_rows (ds : Dataset) (realization : Z) :
  valid_cube ds ->
  (- Z.of_nat (dim_realization (ds_data ds)) <= realization
   < Z.of_nat (dim_realization (ds_data ds)))%Z ->
  exists t,
    load_realization ds realization = inr t
    /\ length (rows t) = dim_sample (ds_data ds)
    /\ columns t = removelast (ds_analytes ds)
    /\ table_wf t.
Proof.
  intros Hv Hi.
  destruct (normalize_index_in _ _ Hi) as [r [Hr _]].
  rewrite (load_realization_run ds realization r Hv Hr).
  eexists. split; [reflexivity |]. simpl. split; [| split; [reflexivity |]].
  - rewrite (Permutation_length (sort_index_perm _)).
    unfold slice_rows. now rewrite length_map, length_seq.
  - now apply extracted_wf.
Qed.

Lemma load_realization_rows_witness :
  exists t,
    load_realization cube0 (-2) = inr t
    /\ length (rows t) = 6%nat
    /\ columns t = ["Ca"; "Mg"]
    /\ table_wf t.
Proof.
  apply (load_realization_rows cube0 (-2) cube0_valid). simpl. lia.
Defined.

Lemma has_name_true (c : string) (names : list string) :
  In c names -> has_name c names = true.
Proof.
  intros H. unfold has_name. apply existsb_exists. exists c.
  split; [exact H | apply String.eqb_refl].
Qed.

Lemma schema_error (ds : Dataset) (realization : Z) :
  (- Z.of_nat (dim_realization (ds_data ds)) <= realization
   < Z.of_nat (dim_realization (ds_data ds)))%Z ->
  (dim_analyte (ds_data ds) - 1 <> length (ds_analytes ds) - 1)%nat
  \/ In "control" (removelast (ds_analytes ds))
  \/ length (ds_control ds) <> dim_sample (ds_data ds)
  \/ In "round" (removelast (ds_analytes ds))
  \/ length (ds_round ds) <> dim_sample (ds_data ds) ->
  load_realization ds realization = inl ValueError.
Proof.
  intros Hi H.
  destruct (normalize_index_in _ _ Hi) as [r [Hr _]].
  unfold load_realization, isel. rewrite Hr, length_removelast_pred.
  destruct (Nat.eqb_spec (dim_analyte (ds_data ds) - 1)
              (length (ds_analytes ds) - 1)) as [E1|E1]; simpl; [|reflexivity].
  destruct (has_name "control" (removelast (ds_analytes ds))) eqn:E2;
    simpl; [reflexivity |].
  destruct (Nat.eqb_spec (length (ds_control ds)) (dim_sample (ds_data ds)))
    as [E3|E3]; simpl; [|reflexivity].
  destruct (has_name "round" (removelast (ds_analytes ds))) eqn:E4;
    simpl; [reflexivity |].
  destruct (Nat.eqb_spec (length (ds_round ds)) (dim_sample (ds_data ds)))
    as [E5|E5]; simpl; [|reflexivity].
  exfalso. destruct H as [H|[H|[H|[H|H]]]]; try contradiction.
  - apply has_name_true in H. congruence.
  - apply has_name_true in H. congruence.
Qed.

(** X2.  With an index in range, a cube that breaks the frame contract
    makes [load_realization] raise ValueError instead of returning a table:
    a names list that does not fit the analyte axis, a kept analyte called
    "control" or "round", or a per-sample variable whose length is not the
    number of samples. *)
Theorem load_realization_schema_error (ds : Dataset) (realization : Z) :
  (- Z.of_nat (dim_realization (ds_data ds)) <= realization
   < Z.of_nat (dim_realization (ds_data ds)))%Z ->
  (dim_analyte (ds_data ds) - 1 <> length (ds_analytes ds) - 1)%nat
  \/ In "control" (removelast (ds_analytes ds))
  \/ length (ds_control ds) <> dim_sample (ds_data ds)
  \/ In "round" (removelast (ds_analytes ds))
  \/ length (ds_round ds) <> dim_sample (ds_data ds) ->
  load_realization ds realization = inl ValueError.
Proof.
  exact (schema_error ds realization).
Qed.

Lemma load_realization_schema_error_witness :
  load_realization cube_short_round 0 = inl ValueError.
Proof.
  apply (load_realization_schema_error cube_short_round 0).
  - simpl. lia.
  - right. right. right. right. simpl. lia.
Defined.

(** X3.  With an index in range, [load_realization] returns a table exactly
    when every frame check passes: the names list fits the analyte axis, no
    kept analyte is called "control" or "round", and both per-sample
    variables have one entry per sample. *)
Theorem load_realization_returns_iff (ds : Dataset) (realization : Z) :
  (- Z.of_nat (dim_realization (ds_data ds)) <= realization
   < Z.of_nat (dim_realization (ds_data ds)))%Z ->
  (exists t, load_realization ds realization = inr t)
  <->
  ((dim_analyte (ds_data ds) - 1 = length (ds_analytes ds) - 1)%nat
   /\ ~ In "control" (removelast (ds_analytes ds))
   /\ length (ds_control ds) = dim_sample (ds_data ds)
   /\ ~ In "round" (removelast (ds_analytes ds))
   /\ length (ds_round ds) = dim_sample (ds_data ds)).
Proof.
  intros Hi. split.
  - intros [t Ht].
    assert (Hne : load_realization ds realization <> inl ValueError)
      by (rewrite Ht; discriminate).
    repeat split.
    + destruct (Nat.eq_dec (dim_analyte (ds_data ds) - 1)
                  (length (ds_analytes ds) - 1)) as [E|E]; [exact E |].
      exfalso. apply Hne, schema_error; auto.
    + intros H. apply Hne, schema_error; auto.
    + destruct (Nat.eq_dec (length (ds_control ds)) (dim_sample (ds_data ds)))
        as [E|E]; [exact E |].
      exfalso. apply Hne, schema_error; auto.
    + intros H. apply Hne, schema_error; auto 6.
    + destruct (Nat.eq_dec (length (ds_round ds)) (dim_sample (ds_data ds)))
        as [E|E]; [exact E |].
      exfalso. apply Hne, schema_error; auto 6.
  - intros (E1 & E2 & E3 & E4 & E5).
    destruct (normalize_index_in _ _ Hi) as [r [Hr _]].
    unfold load_realization, isel.
    rewrite Hr, length_removelast_pred, E1, Nat.eqb_refl. simpl negb. cbv iota.
    rewrite (has_name_false "control" _ E2), E3, Nat.eqb_refl.
    simpl orb. cbv iota.
    rewrite (has_name_false "round" _ E4), E5, Nat.eqb_refl.
    simpl orb. cbv iota.
    eexists. reflexivity.
Qed.

Lemma load_realization_returns_iff_witness :
  (exists t, load_realization cube0 (-1) = inr t)
  <->
  ((dim_analyte (ds_data cube0) - 1 = length (ds_analytes cube0) - 1)%nat
   /\ ~ In "control" (removelast (ds_analytes cube0))
   /\ length (ds_control cube0) = dim_sample (ds_data cube0)
   /\ ~ In "round" (removelast (ds_analytes cube0))
   /\ length (ds_round cube0) = dim_sample (ds_data cube0)).
Proof.
  apply (load_realization_returns_iff cube0 (-1)). simpl. lia.
Defined.

(** X4.  The table depends on the cube only through the selected
    realization and the analytes but the last: two datasets with the same
    shape, names and per-sample variables whose data agree there give the
    same result, whatever the dropped analyte and the other realizations
    hold. *)
Theorem load_realization_depends_on_slice (ds1 ds2 : Dataset)
    (realization : Z) (r : nat) :
  dim_sample (ds_data ds1) = dim_sample (ds_data ds2) ->
  dim_analyte (ds_data ds1) = dim_analyte (ds_data ds2) ->
  dim_realization (ds_data ds1) = dim_realization (ds_data ds2) ->
  ds_analytes ds1 = ds_analytes ds2 ->
  ds_control ds1 = ds_control ds2 ->
  ds_round ds1 = ds_round ds2 ->
  normalize_index (dim_realization (ds_data ds1)) realization = Some r ->
  (forall i j, (i < dim_sample (ds_data ds1))%nat ->
               (j < dim_analyte (ds_data ds1) - 1)%nat ->
               item (ds_data ds1) i j r = item (ds_data ds2) i j r) ->
  load_realization ds1 realization = load_realization ds2 realization.
Proof.
  intros Hs Ha Hn Hna Hc Hr Hi Hitem.
  unfold load_realization, isel.
  rewrite <- Hn, Hi, <- Hs, <- Ha, <- Hna, <- Hc, <- Hr.
  assert (E : slice_at (ds_data ds1) r = slice_at (ds_data ds2) r).
  { unfold slice_at. rewrite <- Hs, <- Ha.
    apply map_ext_in. intros i Hi'. apply in_seq in Hi'.
    apply map_ext_in. intros j Hj. apply in_seq in Hj.
    apply Hitem; lia. }
  now rewrite E.
Qed.

Lemma load_realization_depends_on_slice_witness :
  load_realization cube0 0 = load_realization cube0_other 0.
Proof.
  apply (load_realization_depends_on_slice cube0 cube0_other 0 0);
    try reflexivity.
  intros i j Hi Hj. simpl in Hi, Hj. simpl.
  destruct j as [|[|j]]; [reflexivity | reflexivity | lia].
Defined.

End ExtractorShape.

Section ExtractorLookup.

Lemma key_leb_refl (k : Key) : key_leb k k = true.
Proof.
  pose proof (key_eqb_refl k) as H. unfold key_eqb in H. unfold key_leb.
  destruct (key_compare k k); [reflexivity | discriminate | discriminate].
Qed.

(** The rows with a given key are where the insertion leaves them: before
    the rows of that key that were already there. *)
Lemma filter_insert_row (k : Key) (x : Row) (l : list Row) :
  filter (fun row : Row => key_eqb (fst row) k) (insert_row x l)
  = filter (fun row : Row => key_eqb (fst row) k) (x :: l).
Proof.
  induction l as [|y l IH]; [reflexivity |].
  simpl insert_row. destruct (key_leb (fst x) (fst y)) eqn:E; [reflexivity |].
  simpl filter at 1. rewrite IH. simpl.
  destruct (key_eqb (fst x) k) eqn:Ex; [|reflexivity].
  destruct (key_eqb (fst y) k) eqn:Ey; [|reflexivity].
  apply key_eqb_eq in Ex. apply key_eqb_eq in Ey.
  rewrite Ex, Ey, key_leb_refl in E. discriminate.
Qed.

Lemma filter_sort_index (k : Key) (l : list Row) :
  filter (fun row : Row => key_eqb (fst row) k) (sort_index l)
  = filter (fun row : Row => key_eqb (fst row) k) l.
Proof.
  induction l as [|x l IH]; [reflexivity |].
  simpl sort_index. rewrite filter_insert_row. simpl. now rewrite IH.
Qed.

(** X5.  The sort is stable and loses nothing: for every key, the rows with
    that key come out of [sort_index] in the order they went in, so a label
    lookup on the sorted table finds what it finds on the unsorted one. *)
Theorem sort_index_stable (names : list string) (l : list Row) (lb : label) (z : Z) :
  filter (fun row : Row => key_eqb (fst row) (lb, z)) (sort_index l)
  = filter (fun row : Row => key_eqb (fst row) (lb, z)) l
  /\ loc (mkTable names (sort_index l)) lb z = loc (mkTable names l) lb z.
Proof.
  split; [apply filter_sort_index |].
  unfold loc. simpl. now rewrite filter_sort_index.
Qed.

Lemma loc_sort_index (names : list string) (l : list Row) (lb : label) (z : Z) :
  loc (mkTable names (sort_index l)) lb z = loc (mkTable names l) lb z.
Proof.
  unfold loc. simpl. now rewrite filter_sort_index.
Qed.

Lemma filter_map_comm {A B : Type} (f : A -> B) (p : B -> bool) (l : list A) :
  filter p (map f l) = map f (filter (fun x => p (f x)) l).
Proof.
  induction l as [|x l IH]; [reflexivity |].
  simpl. destruct (p (f x)); simpl; now rewrite IH.
Qed.

Lemma loc_extracted (ds : Dataset) (realization : Z) (r : nat)
    (t : Table) (l : label) (z : Z) :
  valid_cube ds ->
  normalize_index (dim_realization (ds_data ds)) realization = Some r ->
  load_realization ds realization = inr t ->
  loc t l z =
    match samples_at ds l z with
    | [] => None
    | _ :: _ =>
      Some (map (fun i => map (fun j => item (ds_data ds) i j r)
                            (seq 0 (dim_analyte (ds_data ds) - 1)))
              (samples_at ds l z))
    end.
Proof.
  intros Hv Hr Ht.
  rewrite (load_realization_run ds realization r Hv Hr) in Ht.
  injection Ht as <-. rewrite loc_sort_index.
  unfold loc, slice_rows. simpl.
  rewrite (filter_map_comm (slice_row ds r)
             (fun row : Row => key_eqb (fst row) (l, z))).
  change (filter (fun x => key_eqb (fst (slice_row ds r x)) (l, z))
            (seq 0 (dim_sample (ds_data ds))))
    with (samples_at ds l z).
  destruct (samples_at ds l z) as [|i rest]; [reflexivity |].
  simpl. now rewrite map_map.
Qed.

(** X6.  Label lookup on the extracted table: [df.loc[l, z]] holds the
    kept analytes of exactly the samples whose relabelled tag is [l] and
    whose round is [z], in sample order, and raises KeyError when there is
    no such sample. *)
Theorem load_realization_loc (ds : Dataset) (realization : Z) (r : nat)
    (t : Table) (l : label) (z : Z) :
  valid_cube ds ->
  normalize_index (dim_realization (ds_data ds)) realization = Some r ->
  load_realization ds realization = inr t ->
  loc t l z =
    match samples_at ds l z with
    | [] => None
    | _ :: _ =>
      Some (map (fun i => map (fun j => item (ds_data ds) i j r)
                            (seq 0 (dim_analyte (ds_data ds) - 1)))
              (samples_at ds l z))
    end.
Proof.
  exact (loc_extracted ds realization r t l z).
Qed.

Lemma load_realization_loc_witness :
  loc (mkTable ["Ca"; "Mg"] (sort_index (slice_rows cube0 1)))
    (LStr "treatment") 2
  = match samples_at cube0 (LStr "treatment") 2 with
    | [] => None
    | _ :: _ =>
      Some (map (fun i => map (fun j => item (ds_data cube0) i j 1)
                            (seq 0 (dim_analyte (ds_data cube0) - 1)))
              (samples_at cube0 (LStr "treatment") 2))
    end.
Proof.
  apply (load_realization_loc cube0 1 1).
  - exact cube0_valid.
  - reflexivity.
  - vm_compute. reflexivity.
Defined.

Lemma replace_binary (z : Z) :
  z = 0%Z \/ z = 1%Z ->
  replace tag_names z = LStr "control" \/ replace tag_names z = LStr "treatment".
Proof.
  intros [-> | ->]; [right | left]; reflexivity.
Qed.

Lemma sorted_control_first (l : list Row) :
  StronglySorted key_le l ->
  Forall (fun row : Row => fst (fst row) = LStr "control"
                           \/ fst (fst row) = LStr "treatment") l ->
  l = (filter (has_label "control") l
       ++ filter (has_label "treatment") l)%list.
Proof.
  induction 1 as [|x l Hs IH Hall]; intros Hlab; [reflexivity |].
  inversion Hlab as [|? ? Hx Hl]; subst.
  specialize (IH Hl). simpl.
  destruct Hx as [Hx|Hx].
  - assert (Ec : has_label "control" x = true)
      by (unfold has_label; now rewrite Hx).
    assert (Et : has_label "treatment" x = false)
      by (unfold has_label; now rewrite Hx).
    rewrite Ec, Et. simpl. f_equal. exact IH.
  - assert (Ec : has_label "control" x = false)
      by (unfold has_label; now rewrite Hx).
    assert (Et : has_label "treatment" x = true)
      by (unfold has_label; now rewrite Hx).
    rewrite Ec, Et.
    assert (Ht : Forall (fun row : Row => fst (fst row) = LStr "treatment") l).
    { rewrite Forall_forall in *. intros y Hy.
      destruct (Hl y Hy) as [Hc|Hc]; [|exact Hc].
      specialize (Hall y Hy). unfold key_le, key_leb, key_compare in Hall.
      rewrite Hx, Hc in Hall. simpl in Hall. discriminate. }
    assert (E1 : filter (has_label "control") l = []).
    { clear -Ht. induction l as [|y l IHl]; [reflexivity |].
      inversion Ht as [|? ? Hy Hl']; subst. simpl.
      unfold has_label at 1. rewrite Hy. simpl. now apply IHl. }
    assert (E2 : filter (has_label "treatment") l = l).
    { clear -Ht. induction l as [|y l IHl]; [reflexivity |].
      inversion Ht as [|? ? Hy Hl']; subst. simpl.
      unfold has_label at 1. rewrite Hy. simpl. f_equal. now apply IHl. }
    rewrite E1, E2. reflexivity.
Qed.

(** X7.  When every tag of the cube is 0 or 1, every row of the table is
    labelled "control" or "treatment", and all control rows come before all
    treatment rows. *)
Theorem load_realization_binary_labels (ds : Dataset) (realization : Z) (t : Table) :
  valid_cube ds ->
  Forall (fun z => z = 0%Z \/ z = 1%Z) (ds_control ds) ->
  load_realization ds realization = inr t ->
  Forall (fun row : Row => fst (fst row) = LStr "control"
                           \/ fst (fst row) = LStr "treatment") (rows t)
  /\ rows t = (filter (has_label "control") (rows t)
               ++ filter (has_label "treatment") (rows t))%list.
Proof.
  intros Hv Htags Ht.
  destruct (normalize_index (dim_realization (ds_data ds)) realization)
    as [r|] eqn:Hr.
  - rewrite (load_realization_run ds realization r Hv Hr) in Ht.
    injection Ht as <-. simpl.
    assert (Hlab : Forall (fun row : Row => fst (fst row) = LStr "control"
                             \/ fst (fst row) = LStr "treatment")
                     (sort_index (slice_rows ds r))).
    { eapply Permutation_Forall; [apply Permutation_sym, sort_index_perm |].
      apply Forall_forall. intros row Hrow. unfold slice_rows in Hrow.
      apply in_map_iff in Hrow. destruct Hrow as [i [<- Hi]].
      unfold slice_row; simpl. apply replace_binary.
      apply in_seq in Hi. destruct Hv as (_ & Hc & _).
      rewrite Forall_forall in Htags. apply Htags, nth_In. lia. }
    split; [exact Hlab |].
    apply sorted_control_first; [apply sort_index_strongly_sorted | exact Hlab].
  - unfold load_realization, isel in Ht. rewrite Hr in Ht. discriminate.
Qed.

Lemma load_realization_binary_labels_witness :
  Forall (fun row : Row => fst (fst row) = LStr "control"
                           \/ fst (fst row) = LStr "treatment")
    (rows (mkTable ["Ca"; "Mg"] (sort_index (slice_rows cube0 0))))
  /\ rows (mkTable ["Ca"; "Mg"] (sort_index (slice_rows cube0 0)))
     = (filter (has_label "control")
          (rows (mkTable ["Ca"; "Mg"] (sort_index (slice_rows cube0 0))))
        ++ filter (has_label "treatment")
             (rows (mkTable ["Ca"; "Mg"] (sort_index (slice_rows cube0 0)))))%list.
Proof.
  apply (load_realization_binary_labels cube0 0).
  - exact cube0_valid.
  - simpl. repeat constructor; lia.
  - vm_compute. reflexivity.
Defined.

End ExtractorLookup.

(** * Further properties of the builder *)

Section BuilderOutcomes.

Local Arguments loc : simpl never.
Local Arguments np_binop : simpl never.
Local Arguments np_div_scalar : simpl never.
Local Arguments np_add : simpl never.
Local Arguments np_sub : simpl never.

Ltac unfold_init_model :=
  unfold build, init_model, bind, pm_Model, pm_rv, pm_Deterministic, register,
    df_loc, np, ret, raise, current_model.

(** One step of the run: a lookup or an array operation whose outcome is
    known is replaced by it, an unknown one is split into its two cases. *)
Ltac run_cases :=
  repeat (cbn;
    match goal with
    | H : loc ?d ?l ?r = _ |- context [loc ?d ?l ?r] => rewrite H
    | H : np_sub ?a ?b = _ |- context [np_sub ?a ?b] => rewrite H
    | H : np_add ?a ?b = _ |- context [np_add ?a ?b] => rewrite H
    | |- context [loc ?d ?l ?r] => destruct (loc d l r) eqn:?
    | |- context [np_sub ?a ?b] => destruct (np_sub a b) eqn:?
    | |- context [np_add ?a ?b] => destruct (np_add a b) eqn:?
    end);
  cbn.


(** Whatever the table, and whether the call returns or raises, the
    variables declared so far are the first ones of [node_names]. *)
Lemma init_model_prefix (w : World) :
  exists n,
    map node_name (w_model (snd (init_model w))) = firstn n node_names.
Proof.
  destruct w as [df m tr]. unfold_init_model. run_cases;
    match goal with
    | |- exists n, ?l = _ => exists (length l); reflexivity
    end.
Qed.

Ltac known := first [eassumption | reflexivity].


Ltac split_slice H :=
  simpl in H;
  repeat (destruct H as [H|H]; [injection H as <- <-; congruence |]);
  contradiction.

(** A build that returns has declared the 29 variables, each mentioning
    only variables declared before it, and has found its six slices. *)
Lemma build_success_graph (df : Table) (g : list Node) :
  build df = inr g ->
  map node_name g = node_names
  /\ well_scoped g = true
  /\ (forall l z, In (l, z) model_slices -> loc df (LStr l) z <> None).
Proof.
  unfold_init_model. run_cases; intros H; try discriminate H.
  injection H as <-.
  split; [reflexivity |]. split; [reflexivity |].
  intros l z Hin. split_slice Hin.
Qed.

Lemma build_success_observed (df : Table) (g : list Node) :
  build df = inr g ->
  exists t1 t2 t3 c1 c2 c3 o1 h o2,
    loc df (LStr "treatment") 1 = Some t1
    /\ loc df (LStr "treatment") 2 = Some t2
    /\ loc df (LStr "treatment") 3 = Some t3
    /\ loc df (LStr "control") 1 = Some c1
    /\ loc df (LStr "control") 2 = Some c2
    /\ loc df (LStr "control") 3 = Some c3
    /\ np_sub t2 t1 = Some o1
    /\ np_add (np_div_scalar c1 2) (np_div_scalar c2 2) = Some h
    /\ np_sub c3 h = Some o2
    /\ filter is_observed g =
       [ mkNode "obs enriched"
           (Observed (Normal (Ref "enrichment") (Ref "enrichment sigma")) o1);
         mkNode "obs control"
           (Observed (Normal (Ref "control change") (Ref "control change sigma"))
              o2);
         mkNode "obs weathered"
           (Observed (Normal (Ref "weathered concentration")
                        (Ref "weathered sigma")) t3) ].
Proof.
  unfold_init_model. run_cases; intros H; try discriminate H.
  injection H as <-.
  do 9 eexists. repeat (split; [known |]). reflexivity.
Qed.



(** The result is a function of the six slices alone. *)
Lemma build_same_slices (df1 df2 : Table) :
  same_slices df1 df2 -> build df1 = build df2.
Proof.
  intros Hs.
  pose proof (Hs "treatment" 1%Z ltac:(simpl; auto 10)) as E1.
  pose proof (Hs "treatment" 2%Z ltac:(simpl; auto 10)) as E2.
  pose proof (Hs "treatment" 3%Z ltac:(simpl; auto 10)) as E3.
  pose proof (Hs "control" 1%Z ltac:(simpl; auto 10)) as E4.
  pose proof (Hs "control" 2%Z ltac:(simpl; auto 10)) as E5.
  pose proof (Hs "control" 3%Z ltac:(simpl; auto 10)) as E6.
  clear Hs.
  unfold_init_model. run_cases; reflexivity.
Qed.


End BuilderOutcomes.

Section Pipeline.

Lemma in_firstn {A : Type} (x : A) (n : nat) (l : list A) :
  In x (firstn n l) -> In x l.
Proof.
  revert n. induction l as [|y l IH]; intros n H.
  - destruct n; exact H.
  - destruct n as [|n]; [destruct H |].
    simpl in H. destruct H as [H|H]; [now left | right; eapply IH; eauto].
Qed.

Lemma nodup_firstn {A : Type} (n : nat) (l : list A) :
  NoDup l -> NoDup (firstn n l).
Proof.
  revert n. induction l as [|x l IH]; intros n Hnd.
  - destruct n; constructor.
  - destruct n as [|n]; [constructor |].
    inversion Hnd as [|? ? Hx Hl]; subst. simpl. constructor.
    + intros Hin. apply Hx. eapply in_firstn; eauto.
    + now apply IH.
Qed.



End Pipeline.

Section BuilderFacts.

(** X9.  Whatever the table, and whether [init_model] returns or raises,
    the variables of the model it leaves behind are an initial segment of
    the 29 names in declaration order, so no name is declared twice. *)
Theorem init_model_declares_prefix (w : World) :
  exists n,
    map node_name (w_model (snd (init_model w))) = firstn n node_names
    /\ NoDup (map node_name (w_model (snd (init_model w)))).
Proof.
  destruct (init_model_prefix w) as [n Hn].
  exists n. split; [exact Hn |].
  rewrite Hn. apply nodup_firstn, node_names_nodup.
Qed.




(** X12.  Every model [init_model] returns, on any table, has the 29
    variables of [node_names] in that order, and every variable that a
    node's expression or distribution mentions was declared before the
    node: the graph has no forward reference and no cycle. *)
Theorem build_graph_well_scoped (df : Table) (g : list Node) :
  build df = inr g ->
  map node_name g = node_names
  /\ length g = 29%nat
  /\ well_scoped g = true.
Proof.
  intros H. destruct (build_success_graph df g H) as (Hn & Hw & _).
  split; [exact Hn |]. split; [|exact Hw].
  rewrite <- (length_map node_name), Hn. reflexivity.
Qed.

Lemma build_graph_well_scoped_witness :
  map node_name graph0 = node_names
  /\ length graph0 = 29%nat
  /\ well_scoped graph0 = true.
Proof.
  apply (build_graph_well_scoped synthetic graph0).
  vm_compute. reflexivity.
Defined.

(** X13.  Every model [init_model] returns has exactly three observed
    variables, in this order: "obs enriched" bound to treatment round 2
    minus round 1, "obs control" bound to control round 3 minus the mean of
    rounds 1 and 2, and "obs weathered" bound to treatment round 3. *)
Theorem build_observed_data (df : Table) (g : list Node) :
  build df = inr g ->
  exists t1 t2 t3 c1 c2 c3 o1 h o2,
    loc df (LStr "treatment") 1 = Some t1
    /\ loc df (LStr "treatment") 2 = Some t2
    /\ loc df (LStr "treatment") 3 = Some t3
    /\ loc df (LStr "control") 1 = Some c1
    /\ loc df (LStr "control") 2 = Some c2
    /\ loc df (LStr "control") 3 = Some c3
    /\ np_sub t2 t1 = Some o1
    /\ np_add (np_div_scalar c1 2) (np_div_scalar c2 2) = Some h
    /\ np_sub c3 h = Some o2
    /\ filter is_observed g =
       [ mkNode "obs enriched"
           (Observed (Normal (Ref "enrichment") (Ref "enrichment sigma")) o1);
         mkNode "obs control"
           (Observed (Normal (Ref "control change") (Ref "control change sigma"))
              o2);
         mkNode "obs weathered"
           (Observed (Normal (Ref "weathered concentration")
                        (Ref "weathered sigma")) t3) ].
Proof.
  exact (build_success_observed df g).
Qed.

Lemma build_observed_data_witness :
  exists t1 t2 t3 c1 c2 c3 o1 h o2,
    loc synthetic (LStr "treatment") 1 = Some t1
    /\ loc synthetic (LStr "treatment") 2 = Some t2
    /\ loc synthetic (LStr "treatment") 3 = Some t3
    /\ loc synthetic (LStr "control") 1 = Some c1
    /\ loc synthetic (LStr "control") 2 = Some c2
    /\ loc synthetic (LStr "control") 3 = Some c3
    /\ np_sub t2 t1 = Some o1
    /\ np_add (np_div_scalar c1 2) (np_div_scalar c2 2) = Some h
    /\ np_sub c3 h = Some o2
    /\ filter is_observed graph0 =
       [ mkNode "obs enriched"
           (Observed (Normal (Ref "enrichment") (Ref "enrichment sigma")) o1);
         mkNode "obs control"
           (Observed (Normal (Ref "control change") (Ref "control change sigma"))
              o2);
         mkNode "obs weathered"
           (Observed (Normal (Ref "weathered concentration")
                        (Ref "weathered sigma")) t3) ].
Proof.
  apply (build_observed_data synthetic graph0).
  vm_compute. reflexivity.
Defined.

(** X14.  The result of [init_model] depends on the table only through the
    six slices it reads: two tables with the same six slices give the same
    model, or the same exception, whatever other rows, other plot labels
    and column names they have. *)
Theorem build_depends_on_slices (df1 df2 : Table) :
  same_slices df1 df2 -> build df1 = build df2.
Proof.
  exact (build_same_slices df1 df2).
Qed.

Lemma build_depends_on_slices_witness :
  build synthetic = build synthetic_more.
Proof.
  apply (build_depends_on_slices synthetic synthetic_more).
  intros l z Hin. simpl in Hin.
  repeat (destruct Hin as [Hin|Hin];
          [injection Hin as <- <-; vm_compute; reflexivity |]).
  contradiction.
Defined.



End BuilderFacts.

(** * Further properties of the samples *)

Section SampleAlgebra.












End SampleAlgebra.
